(** * The NUI message bridge and the rate-limit hook

    A shallow embedding of [web/src/providers/NuiProvider] (the bridge:
    [useNui], [sendMessage]) and of [web/src/hooks/useRateLimit] (the
    rate-limit coordinator: [showMessage], the response effect,
    [performAction]), followed by the properties the specification states
    about them. *)

From Stdlib Require Import ZArith Lia.
From stdpp Require Import base option gmap strings list fin_maps.

Local Open Scope Z_scope.
#[local] Set Warnings "-register-all".

(** ** JavaScript values, exceptions and observable effects *)

Module Js.

(** The values that travel between the UI and the host: JSON data, plus
    [undefined]. *)
Inductive JsValue : Type :=
| JUndefined
| JNull
| JBool (b : bool)
| JNum (n : Z)
| JStr (s : string)
| JObj (fields : list (string * JsValue)).

(** What a [throw] (or a rejected promise) carries. *)
Inductive JsError : Type :=
| Error (message : string)
| TypeError (message : string)
| SyntaxError (message : string).

(** The outcome of evaluating an expression, or of awaiting a promise:
    a value, or an exception (a rejection). *)
Inductive Completion (A : Type) : Type :=
| Normal (a : A)
| Throw (e : JsError).
Arguments Normal {A} a.
Arguments Throw {A} e.

(** A number as the arithmetic of the hook sees it: [Date.now()] and the
    cooldown are integers; [undefined] coerces to [NaN]. *)
Inductive JsNum : Type :=
| Num (n : Z)
| NaN.

Definition js_sub (a b : JsNum) : JsNum :=
  match a, b with
  | Num x, Num y => Num (x - y)
  | _, _ => NaN
  end.

(** [a < b]: every comparison with [NaN] is false. *)
Definition js_lt (a b : JsNum) : bool :=
  match a, b with
  | Num x, Num y => bool_decide (x < y)
  | _, _ => false
  end.

(** A request handed to [fetch]; [req_body] is the value given to
    [JSON.stringify]. *)
Record Request : Type := mkRequest {
  req_url : string;
  req_method : string;
  req_contentType : string;
  req_body : JsValue
}.

(** What the program does to the outside world. *)
Inductive Effect : Type :=
| EFetch (req : Request)
| EConsoleFailed (eventName : string) (status : Z)
| EConsoleError (eventName : string) (err : JsError)
| EActionFn.

(** The host calls among the effects, in order. *)
Definition fetches (effects : list Effect) : list Request :=
  omap (fun e => match e with EFetch req => Some req | _ => None end)
       effects.

(** A computation that logs effects and may throw. *)
Definition Eff (A : Type) : Type := list Effect * Completion A.

Definition ret {A} (a : A) : Eff A := ([], Normal a).
Definition emit (e : Effect) : Eff unit := ([e], Normal tt).

Definition bind {A B} (m : Eff A) (k : A -> Eff B) : Eff B :=
  match m with
  | (l, Normal a) => let '(l', r) := k a in (l ++ l', r)
  | (l, Throw e) => (l, Throw e)
  end.

(** [try { m } catch (e) { h e }] *)
Definition try_catch {A} (m : Eff A) (h : JsError -> Eff A) : Eff A :=
  match m with
  | (l, Normal a) => (l, Normal a)
  | (l, Throw e) => let '(l', r) := h e in (l ++ l', r)
  end.

Definition lift {A} (c : Completion A) : Eff A := ([], c).

End Js.

Import Js.

Declare Scope eff_scope.
Delimit Scope eff_scope with eff.
Notation "'let*' x ':=' m 'in' k" := (bind m (fun x => k))
  (at level 10, x name, m at level 100, k at level 200) : eff_scope.

(** ** The bridge: providers/NuiProvider *)

Module NuiProvider.

(** The body of a fetch response: its text, and the value its bytes
    denote when they are JSON ([None] when they are not). *)
Record Body : Type := mkBody {
  body_text : string;
  body_json : option JsValue
}.

(** A fetch [Response]. [resp_body = None] is a null body (its bytes are
    empty); [resp_bodyUsed] is set once the body stream has been read. *)
Record Response : Type := mkResponse {
  resp_status : Z;
  resp_body : option Body;
  resp_bodyUsed : bool
}.

(** [resp.ok]: the status is in the range 200 to 299. *)
Definition resp_ok (r : Response) : bool :=
  bool_decide (200 <= resp_status r <= 299).

Definition read_body (r : Response) : Response :=
  mkResponse (resp_status r) (resp_body r)
             (match resp_body r with Some _ => true | None => false end).

(** A response is unusable when it has a body whose stream was read. *)
Definition unusable (r : Response) : bool :=
  match resp_body r with
  | Some _ => resp_bodyUsed r
  | None => false
  end.

Definition already_read : JsError := TypeError "body stream already read".
Definition not_json : JsError := SyntaxError "Unexpected token in JSON".

(** [resp.json()]: consume the body, then parse its bytes. *)
Definition Response_json (r : Response) : Completion JsValue * Response :=
  if unusable r then (Throw already_read, r)
  else
    (match resp_body r with
     | Some b =>
         match body_json b with
         | Some v => Normal v
         | None => Throw not_json
         end
     | None => Throw not_json
     end, read_body r).

(** [resp.text()]: consume the body, then decode its bytes. *)
Definition Response_text (r : Response) : Completion JsValue * Response :=
  if unusable r then (Throw already_read, r)
  else
    (match resp_body r with
     | Some b => Normal (JStr (body_text b))
     | None => Normal (JStr "")
     end, read_body r).

(** The embedded browser around the UI: [window.GetParentResourceName]
    (absent outside the game; it may throw like any call) and what
    [fetch] does with a request (a rejection is a [Throw]). *)
Record Window : Type := mkWindow {
  GetParentResourceName : option (Completion string);
  fetch : Request -> Completion Response
}.

Definition eventNameOf (event : JsValue) : string :=
  match event with
  | JStr s => s
  | _ => "unknownEvent"
  end.

Definition resourceNameOf (w : Window) : Completion string :=
  match GetParentResourceName w with
  | Some call => call
  | None => Normal "inkwell-react-template"
  end.

Definition requestFor (resourceName eventName : string) (data : JsValue)
  : Request :=
  mkRequest ("https://" +:+ resourceName +:+ "/" +:+ eventName)
            "POST" "application/json; charset=UTF-8" data.

(** The inner [try { return await resp.json() } catch (e) { return await
    resp.text() }]. *)
Definition readResponse (resp : Response) : Eff JsValue :=
  let '(parsed, resp') := Response_json resp in
  try_catch (lift parsed) (fun _ => lift (fst (Response_text resp'))).

(** The body of the outer [try]. *)
Definition sendMessage_try (w : Window) (eventName : string) (data : JsValue)
  : Eff JsValue :=
  (let* resourceName := lift (resourceNameOf w) in
   let req := requestFor resourceName eventName data in
   let* _ := emit (EFetch req) in
   let* resp := lift (fetch w req) in
   if negb (resp_ok resp) then
     let* _ := emit (EConsoleFailed eventName (resp_status resp)) in
     ret JNull
   else readResponse resp)%eff.

(** The default parameter [data = {}]: the default stands in when the
    argument is left out ([None]) and when it is [undefined]. *)
Definition dataOrDefault (data : option JsValue) : JsValue :=
  match data with
  | None | Some JUndefined => JObj []
  | Some d => d
  end.

(** [sendMessage(event, data = {})] *)
Definition sendMessage (w : Window) (event : JsValue) (data : option JsValue)
  : Eff JsValue :=
  let data := dataOrDefault data in
  let eventName := eventNameOf event in
  try_catch (sendMessage_try w eventName data)
            (fun err => (let* _ := emit (EConsoleError eventName err) in ret JNull)%eff).

(** The value the provider puts in [NuiContext]. *)
Record NuiContextValue : Type := mkNuiContextValue {
  visible : bool;
  ctx_sendMessage : JsValue -> option JsValue -> Eff JsValue
}.

Definition NuiProvider_value (w : Window) (vis : bool) : NuiContextValue :=
  mkNuiContextValue vis (sendMessage w).

(** [useNui]: [context] is what [useContext(NuiContext)] gives, [None]
    (the default [null] of [createContext]) when no provider is above. *)
Definition useNui (context : option NuiContextValue)
  : Completion NuiContextValue :=
  match context with
  | None => Throw (Error "useNui must be used within NuiProvider")
  | Some c => Normal c
  end.

(** *** The provider's callbacks and effects *)

(** The two listeners the provider puts on [window]: the store's
    [handleNuiMessage] and the [handleKeyDown] of the keyboard effect. *)
Inductive Handler : Type :=
| HandleNuiMessage
| HandleKeyDown.

#[global] Instance Handler_eq_dec : EqDecision Handler.
Proof. solve_decision. Defined.

(** What a callback of the provider calls before it returns: the setters
    of the UI-state store and the listener registry of [window]. *)
Inductive UiCall : Type :=
| SetVisible (b : bool)
| SetUiReady (b : bool)
| AddEventListener (type : string) (h : Handler)
| RemoveEventListener (type : string) (h : Handler).

(** A callback that has returned: the calls it made, in order, and the
    bridge calls it started without awaiting them ([void sendMessage(..)],
    or a bare [sendMessage(..)]), each with the effects and the outcome
    of its promise. *)
Record Ran : Type := mkRan {
  calls : list UiCall;
  started : list (Eff JsValue)
}.

(** [hideFrame()]; [dev] is [import.meta.env.DEV]. *)
Definition hideFrame (dev : bool) (w : Window) : Ran :=
  if dev then mkRan [SetVisible false] []
  else mkRan [] [sendMessage w (JStr "hideFrame") None].

(** The effect that runs when the provider mounts, and its cleanup. *)
Definition mountEffect (w : Window) : Ran :=
  mkRan [AddEventListener "message" HandleNuiMessage; SetUiReady true]
        [sendMessage w (JStr "uiReady") None].

Definition mountCleanup : Ran :=
  mkRan [RemoveEventListener "message" HandleNuiMessage] [].

(** [handleKeyDown(event)], on [event.key]. *)
Definition handleKeyDown (dev : bool) (w : Window) (key : string) : Ran :=
  if decide (key = "Escape") then hideFrame dev w else mkRan [] [].

(** The keyboard effect and its cleanup. *)
Definition keydownEffect : Ran :=
  mkRan [AddEventListener "keydown" HandleKeyDown] [].

Definition keydownCleanup : Ran :=
  mkRan [RemoveEventListener "keydown" HandleKeyDown] [].

(** The listener list of [window]: [addEventListener] appends a listener
    unless the same type and callback are already there,
    [removeEventListener] takes that listener out. *)
Definition addEventListener (type : string) (h : Handler)
    (listeners : list (string * Handler)) : list (string * Handler) :=
  if decide ((type, h) ∈ listeners) then listeners
  else listeners ++ [(type, h)].

Definition removeEventListener (type : string) (h : Handler)
    (listeners : list (string * Handler)) : list (string * Handler) :=
  filter (fun l => l <> (type, h)) listeners.

Definition applyCall (listeners : list (string * Handler)) (c : UiCall)
  : list (string * Handler) :=
  match c with
  | AddEventListener type h => addEventListener type h listeners
  | RemoveEventListener type h => removeEventListener type h listeners
  | SetVisible _ | SetUiReady _ => listeners
  end.

Definition listenersAfter (cs : list UiCall)
    (listeners : list (string * Handler)) : list (string * Handler) :=
  foldl applyCall listeners cs.

End NuiProvider.

Import NuiProvider.

(** ** The rate-limit coordinator: hooks/useRateLimit *)

Module RateLimit.

(** What one mounted hook reads and writes: the clock behind
    [Date.now()], the process-wide [LastActionTime] store, the hook's two
    React states, its [messageTimeoutRef], and the timeouts it has pending
    in the browser (handle to due time; [nextTimer] is the next handle the
    browser gives out). Every timeout the hook sets runs
    [setRateLimitMessage(null)]. *)
Record World : Type := mkWorld {
  clock : Z;
  lastActionTimes : gmap string Z;
  isRateLimited : bool;
  rateLimitMessage : option string;
  messageTimeoutRef : option positive;
  timers : gmap positive Z;
  nextTimer : positive
}.

Definition setIsRateLimited (b : bool) (w : World) : World :=
  mkWorld (clock w) (lastActionTimes w) b (rateLimitMessage w)
          (messageTimeoutRef w) (timers w) (nextTimer w).

Definition setRateLimitMessage (m : option string) (w : World) : World :=
  mkWorld (clock w) (lastActionTimes w) (isRateLimited w) m
          (messageTimeoutRef w) (timers w) (nextTimer w).

Definition setMessageTimeoutRef (r : option positive) (w : World) : World :=
  mkWorld (clock w) (lastActionTimes w) (isRateLimited w)
          (rateLimitMessage w) r (timers w) (nextTimer w).

(** Modelled from the spec: the store module [stores/rateLimitStore] is
    not among the sources. Section 3 of the specification describes
    [LastActionTime] as a process-wide mapping from action id to
    timestamp; an id that was never written reads as [undefined], the
    reading under which the first call for an id is never denied locally
    (section 8, first scenario). *)
Definition getLastActionTime (id : string) (w : World) : JsNum :=
  match lastActionTimes w !! id with
  | Some t => Num t
  | None => NaN
  end.

(** Modelled from the spec: see [getLastActionTime]. *)
Definition setLastActionTime (id : string) (t : Z) (w : World) : World :=
  mkWorld (clock w) (<[id := t]> (lastActionTimes w)) (isRateLimited w)
          (rateLimitMessage w) (messageTimeoutRef w) (timers w)
          (nextTimer w).

(** [Date.now()] *)
Definition Date_now (w : World) : Z := clock w.

(** An integer as a signed 32-bit one: it wraps modulo 2^32 into
    -2^31 .. 2^31 - 1. *)
Definition toInt32 (n : Z) : Z :=
  (n + 2147483648) mod 4294967296 - 2147483648.

(** The delay as the browser takes it: the argument is a 32-bit [long],
    so the number wraps, and a negative delay counts as zero. A delay of
    2^31 ms is taken as 0. *)
Definition timeoutDelay (delay : Z) : Z := Z.max 0 (toInt32 delay).

(** [setTimeout(callback, delay)]: a fresh positive handle. *)
Definition setTimeout (delay : Z) (w : World) : positive * World :=
  (nextTimer w,
   mkWorld (clock w) (lastActionTimes w) (isRateLimited w)
           (rateLimitMessage w) (messageTimeoutRef w)
           (<[nextTimer w := clock w + timeoutDelay delay]> (timers w))
           (Pos.succ (nextTimer w))).

(** [clearTimeout(handle)] *)
Definition clearTimeout (handle : positive) (w : World) : World :=
  mkWorld (clock w) (lastActionTimes w) (isRateLimited w)
          (rateLimitMessage w) (messageTimeoutRef w)
          (delete handle (timers w)) (nextTimer w).

(** [if (messageTimeoutRef.current) clearTimeout(messageTimeoutRef.current)] *)
Definition clearMessageTimeout (w : World) : World :=
  match messageTimeoutRef w with
  | Some handle => clearTimeout handle w
  | None => w
  end.

(** Where an [async] call stands when it gives control back: it has
    returned, or it awaits [sendMessage(event, data)]. *)
Inductive Suspension : Type :=
| Returned
| Awaiting (event : JsValue) (data : JsValue).

Section Hook.

(** The arguments of [useRateLimit(id, cooldown, messageDuration)]. *)
Variables (id : string) (cooldown messageDuration : Z).

Definition rateLimitedText : string :=
  "Action [" +:+ id +:+ "] is rate limited. Please wait.".

Definition showMessage (msg : string) (w : World) : World :=
  let w := setRateLimitMessage (Some msg) w in
  let w := clearMessageTimeout w in
  let '(handle, w) := setTimeout messageDuration w in
  setMessageTimeoutRef (Some handle) w.

(** The effect that handles rate-limit responses;
    [rateLimitResponses] is the map the hook selects from the UI-state
    store at the render the effect belongs to. *)
Definition responseEffect (rateLimitResponses : gmap string bool)
    (w : World) : World :=
  match rateLimitResponses !! id with
  | Some allowed =>
      let w := setIsRateLimited (negb allowed) w in
      if allowed then
        let w := setLastActionTime id (Date_now w) w in
        let w := setRateLimitMessage None w in
        clearMessageTimeout w
      else showMessage rateLimitedText w
  | None => w
  end.

(** The cleanup that runs on unmount. *)
Definition unmountCleanup (w : World) : World := clearMessageTimeout w.

(** [now - lastActionTime < cooldown] *)
Definition coolingDown (w : World) : bool :=
  let lastActionTime := getLastActionTime id w in
  let now := Date_now w in
  js_lt (js_sub (Num now) lastActionTime) (Num cooldown).

Definition checkRateLimitData : JsValue :=
  JObj [("actionId", JStr id); ("cooldown", JNum cooldown)].

(** [performAction(actionFn)] up to its [await]. *)
Definition performAction (w : World) : World * Suspension :=
  if coolingDown w then (showMessage rateLimitedText w, Returned)
  else
    let w := setRateLimitMessage None w in
    let w := clearMessageTimeout w in
    (w, Awaiting (JStr "checkRateLimit") checkRateLimitData).

(** [performAction] from the point where the awaited promise settles:
    a rejection propagates, otherwise [actionFn()] runs. The world is
    the one current at that time. *)
Definition performAction_resume (settled : Completion JsValue)
    (w : World) : World * Eff unit :=
  (w, (let* _ := lift settled in emit EActionFn)%eff).

(** A whole call of [performAction(actionFn)], with the [sendMessage]
    of the bridge. *)
Definition performAction_async
    (sendMessage : JsValue -> option JsValue -> Eff JsValue)
    (w : World) : World * Eff unit :=
  match performAction w with
  | (w, Returned) => (w, ret tt)
  | (w, Awaiting event data) =>
      let '(effects, settled) := sendMessage event (Some data) in
      let '(w, (effects', r)) := performAction_resume settled w in
      (w, (effects ++ effects', r))
  end.

End Hook.

(** [useRateLimit(id, cooldown, messageDuration = 2000)]: the hook reads
    the bridge first, then fixes its arguments. *)
Record Hook : Type := mkHook {
  hook_id : string;
  hook_cooldown : Z;
  hook_messageDuration : Z;
  hook_sendMessage : JsValue -> option JsValue -> Eff JsValue
}.

Definition useRateLimit (context : option NuiContextValue) (id : string)
    (cooldown : Z) (messageDuration : option Z) : Completion Hook :=
  match useNui context with
  | Throw e => Throw e
  | Normal nui =>
      Normal (mkHook id cooldown (default 2000 messageDuration)
                     (ctx_sendMessage nui))
  end.

(** *** The hook in time

    The hook is driven from outside: callers invoke [performAction], the
    store hands the effect a new response map, time passes and due
    timeouts fire, the component unmounts. *)

(** Time passes until [t] (the clock never runs backwards); every
    timeout due by then fires, and each one clears the message. *)
Definition elapse (t : Z) (w : World) : World :=
  let now := Z.max (clock w) t in
  let fired := filter (fun entry => entry.2 <= now) (timers w) in
  let pending := filter (fun entry => now < entry.2) (timers w) in
  mkWorld now (lastActionTimes w) (isRateLimited w)
          (if decide (fired = ∅) then rateLimitMessage w else None)
          (messageTimeoutRef w) pending (nextTimer w).

Inductive Op : Type :=
| PerformAction
| Responses (rateLimitResponses : gmap string bool)
| Elapse (t : Z)
| Unmount.

Section Run.

Variables (id : string) (cooldown messageDuration : Z).

Definition step (w : World) (op : Op) : World :=
  match op with
  | PerformAction => fst (performAction id cooldown messageDuration w)
  | Responses r => responseEffect id messageDuration r w
  | Elapse t => elapse t w
  | Unmount => unmountCleanup w
  end.

Definition run (ops : list Op) (w : World) : World :=
  foldl step w ops.

(** The first render: fresh React state and ref, no timeout of the
    hook pending; then the response effect runs once. *)
Definition mount (now : Z) (store : gmap string Z)
    (rateLimitResponses : gmap string bool) : World :=
  responseEffect id messageDuration rateLimitResponses
    (mkWorld now store false None None ∅ 1%positive).

Inductive reachable : World -> Prop :=
| reachable_mount now store responses :
    reachable (mount now store responses)
| reachable_step w op :
    reachable w -> reachable (step w op).

(** The effect processes a host reply that allows the hook's id. *)
Definition allowedReply (op : Op) : Prop :=
  match op with
  | Responses r => r !! id = Some true
  | _ => False
  end.

#[global] Instance allowedReply_dec op : Decision (allowedReply op).
Proof. destruct op; cbn; apply _. Defined.

(** An allowed reply was processed at or after time [t0]: the stored
    time lies between [t0] and the clock. *)
Definition stampedSince (t0 : Z) (w : World) : Prop :=
  exists last, lastActionTimes w !! id = Some last /\
               t0 <= last <= clock w.

End Run.

(** Every pending timeout is the one [messageTimeoutRef] holds. *)
Definition timersOwned (w : World) : Prop :=
  forall handle due,
    timers w !! handle = Some due -> messageTimeoutRef w = Some handle.


(** The verdict of the last reply for [id] that the effect has read,
    [seen] being the one before [ops]. *)
Definition lastVerdict (id : string) (seen : option bool) (ops : list Op)
  : option bool :=
  foldl (fun seen op =>
           match op with
           | Responses r =>
               match r !! id with
               | Some allowed => Some allowed
               | None => seen
               end
           | _ => seen
           end) seen ops.

(** A message on display is the rate-limit text and has its timeout
    pending, due within the delay [setTimeout] takes for
    [messageDuration]. *)
Definition messageBacked (id : string) (messageDuration : Z) (w : World)
  : Prop :=
  forall m, rateLimitMessage w = Some m ->
    m = rateLimitedText id /\
    exists h due,
      messageTimeoutRef w = Some h /\ timers w = {[ h := due ]} /\
      clock w <= due <= clock w + timeoutDelay messageDuration.

End RateLimit.

Import RateLimit.

(** ** Concrete environments and runs *)

Module Examples.

Definition jsonResponse : Response :=
  mkResponse 200 (Some (mkBody "{}" (Some (JObj [])))) false.

Definition plainTextResponse : Response :=
  mkResponse 200 (Some (mkBody "ok" None)) false.

Definition emptyResponse : Response := mkResponse 204 None false.

Definition errorResponse : Response :=
  mkResponse 500 (Some (mkBody "Internal Server Error" None)) false.

(** Inside the game, resource [my-resource]. *)
Definition gameWindow (resp : Response) : Window :=
  mkWindow (Some (Normal "my-resource")) (fun _ => Normal resp).

(** A browser outside the game: no [GetParentResourceName]; every fetch
    is rejected. *)
Definition browserWindow : Window :=
  mkWindow None (fun _ => Throw (TypeError "Failed to fetch")).

(** [useRateLimit('open_stash', 5000)] mounted at time 0 on an empty
    store. *)
Definition stash0 : World := mount "open_stash" 2000 0 ∅ ∅.

Definition allow (id : string) : gmap string bool := {[ id := true ]}.
Definition deny (id : string) : gmap string bool := {[ id := false ]}.

(** The host allowed [open_stash] at time 1000; the clock now shows
    10000. *)
Definition stash10000 : World :=
  run "open_stash" 5000 2000
      [Elapse 1000; Responses (allow "open_stash"); Elapse 10000] stash0.

(** The same, with the clock at 3000: the cooldown since the allowed
    reply is still running. *)
Definition stash3000 : World :=
  run "open_stash" 5000 2000
      [Elapse 1000; Responses (allow "open_stash"); Elapse 3000] stash0.

(** What happens between two calls at times 10000 and 12000 when the
    host allows the first one at time 10500. *)
Definition allowedMeanwhile : list Op :=
  [Elapse 10500; Responses (allow "open_stash"); Elapse 12000].

(** The bridge as the provider hands it out inside the game. *)
Definition gameBridge : NuiContextValue :=
  NuiProvider_value (gameWindow jsonResponse) true.


(** A window whose [GetParentResourceName] throws. *)
Definition throwingWindow : Window :=
  mkWindow (Some (Throw (Error "no resource")))
           (fun _ => Normal jsonResponse).

(** The host denies [open_stash] at time 1000. *)
Definition deniedAt1000 : list Op :=
  [Elapse 1000; Responses (deny "open_stash")].

End Examples.
Import Examples.

(** ** Properties of the bridge *)

Section BridgeProperties.

Implicit Types (w : Window) (event : JsValue) (data : option JsValue).

Lemma readResponse_total (resp : Response) :
  forall e, snd (readResponse resp) = Throw e -> e = already_read.
Proof.
  intros e. unfold readResponse, Response_json, Response_text.
  destruct (unusable resp) eqn:Hu; cbn.
  - rewrite Hu. cbn. congruence.
  - destruct (resp_body resp) as [b|] eqn:Hb; cbn.
    + destruct (body_json b); cbn; [discriminate|].
      unfold unusable, read_body; cbn. rewrite Hb. cbn. congruence.
    + unfold unusable, read_body; cbn. rewrite Hb. cbn. discriminate.
Qed.

Lemma sendMessage_settles w event data :
  exists v, snd (sendMessage w event data) = Normal v.
Proof.
  unfold sendMessage, try_catch.
  destruct (sendMessage_try w (eventNameOf event) (dataOrDefault data))
    as [l [v|e]]; cbn; eauto.
Qed.

Lemma sendMessage_try_request w eventName body resourceName :
  resourceNameOf w = Normal resourceName ->
  sendMessage_try w eventName body =
  bind ([EFetch (requestFor resourceName eventName body)],
        fetch w (requestFor resourceName eventName body))
       (fun resp =>
          if negb (resp_ok resp) then
            bind (emit (EConsoleFailed eventName (resp_status resp)))
                 (fun _ => ret JNull)
          else readResponse resp).
Proof.
  intros Hr. unfold sendMessage_try. rewrite Hr. cbn.
  destruct (fetch w _) as [resp|e]; cbn; [|reflexivity].
  destruct (negb (resp_ok resp)); cbn; [reflexivity|].
  destruct (readResponse resp); reflexivity.
Qed.

(** C7. [sendMessage] never throws to its caller: it always settles
    with a value, and that value is [null] when the underlying [fetch]
    rejects and when it resolves with a status outside 200..299. *)
Theorem sendMessage_transport_failure_is_null w event data :
  (exists v, snd (sendMessage w event data) = Normal v) /\
  (forall resourceName,
      resourceNameOf w = Normal resourceName ->
      let req := requestFor resourceName (eventNameOf event)
                            (dataOrDefault data) in
      (forall e, fetch w req = Throw e ->
                 snd (sendMessage w event data) = Normal JNull) /\
      (forall resp, fetch w req = Normal resp ->
                    ~ 200 <= resp_status resp <= 299 ->
                    snd (sendMessage w event data) = Normal JNull)).
Proof.
  split; [apply sendMessage_settles|].
  intros resourceName Hr req. unfold sendMessage.
  rewrite (sendMessage_try_request _ _ _ _ Hr). fold req.
  split.
  - intros e He. rewrite He. reflexivity.
  - intros resp Hresp Hok. rewrite Hresp. cbn.
    unfold resp_ok. rewrite bool_decide_eq_false_2 by done. reflexivity.
Qed.

(** A rejected fetch outside the game, and a 500 inside it. *)
Lemma sendMessage_transport_failure_is_null_witness :
  snd (sendMessage browserWindow (JStr "uiReady") None) = Normal JNull /\
  ~ 200 <= resp_status errorResponse <= 299 /\
  snd (sendMessage (gameWindow errorResponse) (JStr "uiReady") None)
  = Normal JNull.
Proof.
  split; [|split; [cbn; lia|]].
  - exact (proj1 (proj2 (sendMessage_transport_failure_is_null
                           browserWindow (JStr "uiReady") None)
                        "inkwell-react-template" eq_refl)
                 (TypeError "Failed to fetch") eq_refl).
  - exact (proj2 (proj2 (sendMessage_transport_failure_is_null
                           (gameWindow errorResponse) (JStr "uiReady") None)
                        "my-resource" eq_refl)
                 errorResponse eq_refl ltac:(cbn; lia)).
Defined.

(** A 2xx response whose body is JSON: the parsed value is returned. *)
Lemma sendMessage_json_body w event data resourceName resp b v :
  resourceNameOf w = Normal resourceName ->
  fetch w (requestFor resourceName (eventNameOf event)
                      (dataOrDefault data)) = Normal resp ->
  resp_ok resp = true -> resp_bodyUsed resp = false ->
  resp_body resp = Some b -> body_json b = Some v ->
  snd (sendMessage w event data) = Normal v.
Proof.
  intros Hr Hf Hok Hused Hb Hj. unfold sendMessage.
  rewrite (sendMessage_try_request _ _ _ _ Hr), Hf. cbn. rewrite Hok. cbn.
  unfold readResponse, Response_json, unusable. rewrite Hb, Hused, Hj.
  reflexivity.
Qed.

(** A 2xx response whose body is not JSON: [resp.json()] has read the
    body, so [resp.text()] rejects, the outer [catch] logs that and
    [null] is returned. *)
Lemma sendMessage_other_body w event data resourceName resp b :
  resourceNameOf w = Normal resourceName ->
  fetch w (requestFor resourceName (eventNameOf event)
                      (dataOrDefault data)) = Normal resp ->
  resp_ok resp = true -> resp_bodyUsed resp = false ->
  resp_body resp = Some b -> body_json b = None ->
  sendMessage w event data =
  ([EFetch (requestFor resourceName (eventNameOf event)
                       (dataOrDefault data));
    EConsoleError (eventNameOf event) already_read], Normal JNull).
Proof.
  intros Hr Hf Hok Hused Hb Hj. unfold sendMessage.
  rewrite (sendMessage_try_request _ _ _ _ Hr), Hf. cbn. rewrite Hok. cbn.
  unfold readResponse, Response_json, Response_text, unusable.
  rewrite Hb, Hused, Hj. cbn. rewrite Hb. reflexivity.
Qed.

(** C8, at a 200 response with the plain-text body [ok]: the value
    returned is [null], with the rejection of [resp.text()] logged, and
    not the raw text ["ok"]. *)
Theorem sendMessage_plain_text_body_gives_null :
  sendMessage (gameWindow plainTextResponse) (JStr "checkRateLimit") None =
  ([EFetch (requestFor "my-resource" "checkRateLimit" (JObj []));
    EConsoleError "checkRateLimit" (TypeError "body stream already read")],
   Normal JNull) /\
  snd (sendMessage (gameWindow plainTextResponse) (JStr "checkRateLimit")
                   None)
  <> Normal (JStr "ok").
Proof. split; [reflexivity | discriminate]. Qed.

(** C9. Outside a provider [useNui] throws at once, and so does the
    hook that starts by calling it; no default bridge is returned. *)
Theorem useNui_outside_provider_throws :
  useNui None = Throw (Error "useNui must be used within NuiProvider") /\
  (forall id cooldown messageDuration,
      useRateLimit None id cooldown messageDuration
      = Throw (Error "useNui must be used within NuiProvider")) /\
  (forall context value, useNui context = Normal value ->
                         context = Some value).
Proof.
  split; [reflexivity|]. split; [reflexivity|].
  intros [c|] value; cbn; congruence.
Qed.

(** C10. The one host call of [sendMessage] goes to
    [https://{resourceName}/{event}]: the resource name is what
    [window.GetParentResourceName()] returns when the function is
    defined, ['inkwell-react-template'] otherwise; the event is
    ['unknownEvent'] when the argument is not a string. *)
Theorem sendMessage_url (doFetch : Request -> Completion Response)
    event data :
  let eventName :=
    match event with JStr s => s | _ => "unknownEvent" end in
  (forall resourceName,
      map req_url
          (fetches (fst (sendMessage
                           (mkWindow (Some (Normal resourceName)) doFetch)
                           event data)))
      = ["https://" +:+ resourceName +:+ "/" +:+ eventName]) /\
  map req_url
      (fetches (fst (sendMessage (mkWindow None doFetch) event data)))
  = ["https://" +:+ "inkwell-react-template" +:+ "/" +:+ eventName].
Proof.
  assert (Hone : forall w resourceName,
             resourceNameOf w = Normal resourceName ->
             map req_url (fetches (fst (sendMessage w event data)))
             = ["https://" +:+ resourceName +:+ "/" +:+ eventNameOf event]).
  { intros w resourceName Hr. unfold sendMessage.
    rewrite (sendMessage_try_request _ _ _ _ Hr).
    destruct (fetch w _) as [resp|e]; cbn; [|reflexivity].
    destruct (negb (resp_ok resp)); cbn; [reflexivity|].
    unfold readResponse, Response_json, Response_text.
    destruct (unusable resp) eqn:Hu; cbn.
    - rewrite Hu. reflexivity.
    - destruct (resp_body resp) as [b|] eqn:Hb; cbn.
      + destruct (body_json b); cbn; [reflexivity|].
        unfold unusable, read_body; cbn. rewrite Hb. reflexivity.
      + unfold unusable, read_body; cbn. rewrite Hb. reflexivity. }
  cbv zeta. split.
  - intros resourceName. apply (Hone (mkWindow _ _)). reflexivity.
  - apply (Hone (mkWindow _ _)). reflexivity.
Qed.

End BridgeProperties.

(** ** Properties of the rate-limit coordinator *)

Section Coordinator.

Variables (id : string) (cooldown messageDuration : Z).

#[local] Abbreviation showMessage := (showMessage messageDuration).
#[local] Abbreviation responseEffect := (responseEffect id messageDuration).
#[local] Abbreviation performAction := (performAction id cooldown messageDuration).
#[local] Abbreviation step := (step id cooldown messageDuration).
#[local] Abbreviation run := (run id cooldown messageDuration).
#[local] Abbreviation reachable := (reachable id cooldown messageDuration).

(** Case analysis on [messageTimeoutRef.current]. *)
Ltac case_ref w :=
  unfold clearMessageTimeout; cbn;
  let Href := fresh "Href" in
  destruct (messageTimeoutRef w) eqn:Href; cbn; rewrite ?Href; try done.

(** *** The delay of a timeout *)


Lemma timeoutDelay_nonneg d : 0 <= timeoutDelay d.
Proof. unfold timeoutDelay. lia. Qed.

Lemma timeoutDelay_le d :
  -2147483648 <= d -> timeoutDelay d <= Z.max 0 d.
Proof.
  intros Hd. unfold timeoutDelay, toInt32.
  destruct (decide (d <= 2147483647)) as [Hle|Hgt].
  - rewrite Z.mod_small by lia. lia.
  - pose proof (Z.mod_pos_bound (d + 2147483648) 4294967296 ltac:(lia)).
    lia.
Qed.

(** A delay of 2^31 ms wraps to a negative number and so counts as 0. *)
Lemma timeoutDelay_overflow : timeoutDelay 2147483648 = 0.
Proof. reflexivity. Qed.

(** *** What each operation leaves alone *)

Lemma clearMessageTimeout_frame w :
  clock (clearMessageTimeout w) = clock w /\
  lastActionTimes (clearMessageTimeout w) = lastActionTimes w /\
  isRateLimited (clearMessageTimeout w) = isRateLimited w /\
  rateLimitMessage (clearMessageTimeout w) = rateLimitMessage w /\
  messageTimeoutRef (clearMessageTimeout w) = messageTimeoutRef w /\
  nextTimer (clearMessageTimeout w) = nextTimer w.
Proof. case_ref w. Qed.

Lemma showMessage_frame msg w :
  clock (showMessage msg w) = clock w /\
  lastActionTimes (showMessage msg w) = lastActionTimes w /\
  isRateLimited (showMessage msg w) = isRateLimited w /\
  rateLimitMessage (showMessage msg w) = Some msg /\
  messageTimeoutRef (showMessage msg w) = Some (nextTimer w).
Proof.
  unfold RateLimit.showMessage. case_ref w.
Qed.

Lemma performAction_frame w :
  clock (fst (performAction w)) = clock w /\
  lastActionTimes (fst (performAction w)) = lastActionTimes w /\
  isRateLimited (fst (performAction w)) = isRateLimited w.
Proof.
  unfold RateLimit.performAction.
  destruct (coolingDown id cooldown w); cbn.
  - destruct (showMessage_frame (rateLimitedText id) w) as (?&?&?&_). done.
  - case_ref w.
Qed.

Lemma responseEffect_clock r w : clock (responseEffect r w) = clock w.
Proof.
  unfold RateLimit.responseEffect.
  destruct (r !! id) as [[|]|]; [| |done].
  - case_ref w.
  - apply (showMessage_frame _
             (setIsRateLimited (negb false) w)).
Qed.

Lemma step_clock_mono w op : clock w <= clock (step w op).
Proof.
  destruct op as [|r|t|]; cbn.
  - destruct (performAction_frame w) as [-> _]. lia.
  - rewrite responseEffect_clock. lia.
  - lia.
  - unfold unmountCleanup.
    destruct (clearMessageTimeout_frame w) as [-> _]. lia.
Qed.

Lemma run_clock_mono ops w : clock w <= clock (run ops w).
Proof.
  revert w. induction ops as [|op ops IH]; intros w; cbn; [lia|].
  etrans; [apply (step_clock_mono w op) | apply IH].
Qed.

Lemma coolingDown_spec w :
  coolingDown id cooldown w = true <->
  exists last, lastActionTimes w !! id = Some last /\
               clock w - last < cooldown.
Proof.
  unfold coolingDown, getLastActionTime, Date_now.
  destruct (lastActionTimes w !! id) as [last|]; cbn.
  - rewrite bool_decide_eq_true. split.
    + intros H. by exists last.
    + intros (l & [= <-] & H). done.
  - split; [done|]. intros (l & ? & _). done.
Qed.

(** *** The store changes only in the effect, on an allowed reply *)

Lemma responseEffect_store r w :
  lastActionTimes (responseEffect r w) =
  if decide (r !! id = Some true) then <[id := clock w]> (lastActionTimes w)
  else lastActionTimes w.
Proof.
  unfold RateLimit.responseEffect.
  destruct (r !! id) as [[|]|]; cbn.
  - rewrite decide_True by done.
    case_ref w.
  - rewrite decide_False by done.
    apply (showMessage_frame _ (setIsRateLimited true w)).
  - rewrite decide_False by done. done.
Qed.

Lemma step_store w op :
  ~ allowedReply id op -> lastActionTimes (step w op) = lastActionTimes w.
Proof.
  destruct op as [|r|t|]; cbn; intros Hno.
  - apply performAction_frame.
  - rewrite responseEffect_store. by rewrite decide_False.
  - done.
  - apply clearMessageTimeout_frame.
Qed.

Lemma run_store ops w :
  Forall (fun op => ~ allowedReply id op) ops ->
  lastActionTimes (run ops w) = lastActionTimes w.
Proof.
  revert w. induction ops as [|op ops IH]; intros w Hall; cbn; [done|].
  inversion Hall as [|? ? Hop Hops]; subst.
  unfold run in IH. rewrite IH by done. by apply step_store.
Qed.

Lemma step_stampedSince t0 w op :
  stampedSince id t0 w -> stampedSince id t0 (step w op).
Proof.
  intros (last & Hl & Hr).
  pose proof (step_clock_mono w op) as Hmono.
  destruct (decide (allowedReply id op)) as [Hal|Hno].
  - destruct op as [|r|t|]; cbn in Hal; try done.
    exists (clock w). cbn. rewrite responseEffect_store, decide_True by done.
    rewrite lookup_insert_eq, responseEffect_clock. split; [done|lia].
  - exists last. rewrite step_store by done. split; [done|lia].
Qed.

Lemma run_stampedSince t0 ops w :
  stampedSince id t0 w -> stampedSince id t0 (run ops w).
Proof.
  revert w. induction ops as [|op ops IH]; intros w H; cbn; [done|].
  apply IH. by apply step_stampedSince.
Qed.

Lemma run_allowed_stamped t0 ops w :
  t0 <= clock w -> Exists (allowedReply id) ops ->
  stampedSince id t0 (run ops w).
Proof.
  intros Ht Hex. revert w Ht.
  induction Hex as [op ops Hal | op ops _ IH]; intros w Ht; cbn.
  - apply run_stampedSince.
    destruct op as [|r|t|]; cbn in Hal; try done.
    exists (clock w). cbn. rewrite responseEffect_store, decide_True by done.
    rewrite lookup_insert_eq, responseEffect_clock. split; [done|lia].
  - apply IH. pose proof (step_clock_mono w op). lia.
Qed.

(** *** Timeouts *)

Lemma clearMessageTimeout_timers w :
  timersOwned w -> timers (clearMessageTimeout w) = ∅.
Proof.
  intros Hown. apply map_empty. intros h. unfold clearMessageTimeout.
  destruct (messageTimeoutRef w) as [r|] eqn:Href; cbn.
  - destruct (decide (r = h)) as [->|Hne].
    + apply lookup_delete_eq.
    + rewrite lookup_delete_ne by done.
      destruct (timers w !! h) as [due|] eqn:Hh; [|done].
      apply Hown in Hh. congruence.
  - destruct (timers w !! h) as [due|] eqn:Hh; [|done].
    apply Hown in Hh. congruence.
Qed.

Lemma showMessage_timers msg w :
  timersOwned w ->
  timers (showMessage msg w)
  = {[ nextTimer w := clock w + timeoutDelay messageDuration ]}.
Proof.
  intros Hown. unfold RateLimit.showMessage. cbn.
  destruct (clearMessageTimeout_frame (setRateLimitMessage (Some msg) w))
    as (-> & _ & _ & _ & _ & ->).
  rewrite clearMessageTimeout_timers by exact Hown. cbn.
  by rewrite insert_empty.
Qed.

Lemma timersOwned_showMessage msg w :
  timersOwned w -> timersOwned (showMessage msg w).
Proof.
  intros Hown h due. rewrite showMessage_timers by done.
  destruct (showMessage_frame msg w) as (_ & _ & _ & _ & ->).
  intros [-> _]%lookup_singleton_Some. done.
Qed.

Lemma timersOwned_cleared w :
  timersOwned w -> timersOwned (clearMessageTimeout w).
Proof.
  intros Hown h due. rewrite clearMessageTimeout_timers by done.
  by rewrite lookup_empty.
Qed.

Lemma timersOwned_responseEffect r w :
  timersOwned w -> timersOwned (responseEffect r w).
Proof.
  intros Hown. unfold RateLimit.responseEffect.
  destruct (r !! id) as [[|]|]; [| |done].
  - by apply timersOwned_cleared.
  - by apply timersOwned_showMessage.
Qed.

Lemma timersOwned_performAction w :
  timersOwned w -> timersOwned (fst (performAction w)).
Proof.
  intros Hown. unfold RateLimit.performAction.
  destruct (coolingDown id cooldown w); cbn.
  - by apply timersOwned_showMessage.
  - by apply timersOwned_cleared.
Qed.

Lemma timersOwned_elapse t w : timersOwned w -> timersOwned (elapse t w).
Proof.
  intros Hown h due. unfold elapse. cbn.
  intros [Hh _]%map_lookup_filter_Some. by apply Hown in Hh.
Qed.

Lemma timersOwned_step w op : timersOwned w -> timersOwned (step w op).
Proof.
  destruct op as [|r|t|]; cbn.
  - apply timersOwned_performAction.
  - apply timersOwned_responseEffect.
  - apply timersOwned_elapse.
  - apply timersOwned_cleared.
Qed.

Lemma timersOwned_run ops w : timersOwned w -> timersOwned (run ops w).
Proof.
  revert w. induction ops as [|op ops IH]; intros w H; cbn; [done|].
  apply IH. by apply timersOwned_step.
Qed.

Lemma timersOwned_reachable w : reachable w -> timersOwned w.
Proof.
  induction 1 as [now store responses | w op _ IH].
  - apply timersOwned_responseEffect. intros h due. cbn.
    by rewrite lookup_empty.
  - by apply timersOwned_step.
Qed.


(** *** A displayed message and its one timeout, as time passes *)

Lemma elapse_before h due t w :
  timers w = {[ h := due ]} -> Z.max (clock w) t < due ->
  timers (elapse t w) = {[ h := due ]} /\
  rateLimitMessage (elapse t w) = rateLimitMessage w.
Proof.
  intros Ht Hlt. unfold elapse. cbn. rewrite Ht.
  rewrite map_filter_singleton_True by (cbn; lia).
  rewrite map_filter_singleton_False by (cbn; lia).
  by rewrite decide_True.
Qed.

Lemma elapse_after h due t w :
  timers w = {[ h := due ]} -> due <= Z.max (clock w) t ->
  timers (elapse t w) = ∅ /\ rateLimitMessage (elapse t w) = None.
Proof.
  intros Ht Hle. unfold elapse. cbn. rewrite Ht.
  rewrite map_filter_singleton_False by (cbn; lia).
  rewrite map_filter_singleton_True by (cbn; lia).
  rewrite decide_False; [done|].
  intros Heq. apply (f_equal (fun m => m !! h)) in Heq.
  by rewrite lookup_singleton_eq, lookup_empty in Heq.
Qed.

Lemma elapse_idle t w :
  timers w = ∅ ->
  timers (elapse t w) = ∅ /\
  rateLimitMessage (elapse t w) = rateLimitMessage w.
Proof.
  intros Ht. unfold elapse. cbn. rewrite Ht, !map_filter_empty.
  by rewrite decide_True.
Qed.






(** *** The local cooldown check *)

Lemma performAction_denied w :
  coolingDown id cooldown w = true ->
  performAction w = (showMessage (rateLimitedText id) w, Returned).
Proof. intros H. unfold RateLimit.performAction. by rewrite H. Qed.

Lemma performAction_passed w :
  coolingDown id cooldown w = false ->
  performAction w =
  (clearMessageTimeout (setRateLimitMessage None w),
   Awaiting (JStr "checkRateLimit") (checkRateLimitData id cooldown)).
Proof. intros H. unfold RateLimit.performAction. by rewrite H. Qed.

Lemma performAction_async_denied sendMessage w :
  coolingDown id cooldown w = true ->
  performAction_async id cooldown messageDuration sendMessage w
  = (showMessage (rateLimitedText id) w, ([], Normal tt)).
Proof.
  intros H. unfold performAction_async. by rewrite performAction_denied.
Qed.

Lemma coolingDown_stamped t0 w :
  stampedSince id t0 w -> clock w - t0 < cooldown ->
  coolingDown id cooldown w = true.
Proof.
  intros (last & Hl & Hr) Hlt. apply coolingDown_spec.
  exists last. split; [done|lia].
Qed.

Lemma coolingDown_later w w' :
  lastActionTimes w' = lastActionTimes w -> clock w <= clock w' ->
  coolingDown id cooldown w = false -> coolingDown id cooldown w' = false.
Proof.
  intros Hs Hc Hw. apply not_true_is_false. intros Hw'.
  apply coolingDown_spec in Hw' as (last & Hl & Hlt).
  rewrite Hs in Hl.
  assert (coolingDown id cooldown w = true); [|congruence].
  apply coolingDown_spec. exists last. split; [done|lia].
Qed.

(** *** The claims about the coordinator *)

(** C1, as amended. Of two calls of [performAction] less than [cooldown]
    ms apart, the second one is denied locally and issues no host call
    when a host reply allowing the id was processed between them. When no
    such reply was processed, the second call passes the local check
    whenever the first one did, and so reaches [sendMessage] again. *)
Theorem second_call_silent_after_allowed_reply w between :
  let w1 := fst (performAction w) in
  let w2 := run between w1 in
  (clock w2 - clock w < cooldown ->
   Exists (allowedReply id) between ->
   snd (performAction w2) = Returned /\
   forall sendMessage,
     snd (performAction_async id cooldown messageDuration sendMessage w2)
     = ([], Normal tt)) /\
  (Forall (fun op => ~ allowedReply id op) between ->
   snd (performAction w) <> Returned ->
   snd (performAction w2)
   = Awaiting (JStr "checkRateLimit") (checkRateLimitData id cooldown)).
Proof.
  intros w1 w2.
  destruct (performAction_frame w) as (Hc1 & Hs1 & _). fold w1 in Hc1, Hs1.
  split.
  - intros Hlt Hex.
    assert (coolingDown id cooldown w2 = true) as Hcool.
    { apply (coolingDown_stamped (clock w)); [|done].
      apply run_allowed_stamped; [lia|done]. }
    split.
    + by rewrite performAction_denied.
    + intros sendMessage. by rewrite performAction_async_denied.
  - intros Hall Hfirst.
    assert (coolingDown id cooldown w = false) as Hw.
    { destruct (coolingDown id cooldown w) eqn:E; [|done].
      by rewrite performAction_denied in Hfirst. }
    rewrite performAction_passed; [done|].
    apply (coolingDown_later w); [| |done].
    + subst w2. rewrite run_store by done. done.
    + pose proof (run_clock_mono between w1). fold w2 in H. lia.
Qed.


(** C3. [LastActionTime] changes for no id but the hook's own, and only
    when the effect processes a reply that allows it; [performAction],
    denied locally or not, never writes it. *)
Theorem lastActionTime_written_only_on_allowed_reply :
  (forall w, lastActionTimes (fst (performAction w)) = lastActionTimes w) /\
  (forall w op x,
      lastActionTimes (step w op) !! x <> lastActionTimes w !! x ->
      x = id /\ allowedReply id op /\
      lastActionTimes (step w op) !! x = Some (Date_now w)) /\
  (forall ops w,
      Forall (fun op => ~ allowedReply id op) ops ->
      lastActionTimes (run ops w) = lastActionTimes w).
Proof.
  split; [intros w; apply performAction_frame|].
  split; [|apply run_store].
  intros w op x Hchg.
  destruct (decide (allowedReply id op)) as [Hal|Hno].
  - destruct op as [|r|t|]; cbn in Hal; try done. cbn in Hchg |- *.
    rewrite responseEffect_store, decide_True in Hchg |- * by done.
    destruct (decide (x = id)) as [->|Hne].
    + by rewrite lookup_insert_eq.
    + by rewrite lookup_insert_ne in Hchg.
  - by rewrite step_store in Hchg.
Qed.

(** C4. A call that passes the local check awaits
    [sendMessage('checkRateLimit', { actionId: id, cooldown })]; whatever
    the host call does the promise settles, and [actionFn] is the next
    thing that runs, also after any replies were processed meanwhile. *)
Theorem passed_check_runs_actionFn w :
  coolingDown id cooldown w = false ->
  let w' := fst (performAction w) in
  let data := JObj [("actionId", JStr id); ("cooldown", JNum cooldown)] in
  snd (performAction w) = Awaiting (JStr "checkRateLimit") data /\
  (forall window, exists v,
      snd (sendMessage window (JStr "checkRateLimit") (Some data))
      = Normal v /\
      performAction_async id cooldown messageDuration (sendMessage window) w
      = (w', (fst (sendMessage window (JStr "checkRateLimit") (Some data))
              ++ [EActionFn], Normal tt))) /\
  (forall window ops,
      let settled :=
        snd (sendMessage window (JStr "checkRateLimit") (Some data)) in
      performAction_resume settled (run ops w')
      = (run ops w', ([EActionFn], Normal tt))).
Proof.
  intros Hpass w' data.
  split; [by rewrite performAction_passed|].
  split.
  - intros window.
    destruct (sendMessage_settles window (JStr "checkRateLimit") (Some data))
      as [v Hv].
    exists v. split; [done|].
    unfold performAction_async. subst w'.
    rewrite performAction_passed by done. cbn.
    change (checkRateLimitData id cooldown) with data.
    destruct (sendMessage window (JStr "checkRateLimit") (Some data))
      as [effects settled].
    cbn in Hv. subst settled. reflexivity.
  - intros window ops settled.
    destruct (sendMessage_settles window (JStr "checkRateLimit") (Some data))
      as [v Hv].
    subst settled. rewrite Hv. reflexivity.
Qed.

(** C5. When the effect processes a reply that allows the id, the
    rate-limited flag and the message are cleared, the timeout held by
    [messageTimeoutRef] is cancelled (no timeout of the hook stays
    pending), and [LastActionTime[id]] becomes the time of processing. *)
Theorem allowed_reply_resets responses w :
  responses !! id = Some true ->
  let w' := responseEffect responses w in
  isRateLimited w' = false /\
  rateLimitMessage w' = None /\
  (forall handle, messageTimeoutRef w = Some handle ->
                  timers w' !! handle = None) /\
  (reachable w -> timers w' = ∅) /\
  lastActionTimes w' !! id = Some (Date_now w) /\
  getLastActionTime id w' = Num (Date_now w).
Proof.
  intros Hal w'.
  assert (w' = clearMessageTimeout
                 (setRateLimitMessage None
                    (setLastActionTime id (Date_now w)
                       (setIsRateLimited false w)))) as ->.
  { subst w'. unfold RateLimit.responseEffect. by rewrite Hal. }
  match goal with |- context [clearMessageTimeout ?x] =>
    destruct (clearMessageTimeout_frame x) as (_ & Hs & Hr & Hm & _) end.
  cbn in Hs, Hr, Hm.
  assert (lastActionTimes
            (clearMessageTimeout
               (setRateLimitMessage None
                  (setLastActionTime id (Date_now w)
                     (setIsRateLimited false w)))) !! id
          = Some (Date_now w)) as Hstamp.
  { rewrite Hs. apply lookup_insert_eq. }
  repeat split; try done.
  - intros handle Href. unfold clearMessageTimeout. cbn. rewrite Href. cbn.
    apply lookup_delete_eq.
  - intros Hreach. apply clearMessageTimeout_timers.
    exact (timersOwned_reachable _ Hreach).
  - unfold getLastActionTime. by rewrite Hstamp.
Qed.


End Coordinator.

(** ** The claims at concrete runs *)

Lemma reachable_run id cooldown messageDuration ops w :
  reachable id cooldown messageDuration w ->
  reachable id cooldown messageDuration (run id cooldown messageDuration ops w).
Proof.
  revert w. induction ops as [|op ops IH]; intros w H; cbn; [done|].
  apply IH. by constructor.
Qed.

Lemma stash0_reachable cooldown : reachable "open_stash" cooldown 2000 stash0.
Proof. apply reachable_mount. Qed.

(** C1 as the specification words it fails: it is not the case that of
    two calls less than [cooldown] ms apart, with no allowed reply
    processed in between, the second never reaches [sendMessage]. With
    [LastActionTime['open_stash'] = 1000] and a cooldown of 5000, the
    calls at 10000 and 11000 both pass the local check. *)
Lemma second_call_within_cooldown_reaches_host :
  ~ (forall (id : string) (cooldown messageDuration : Z) (w : World)
            (between : list Op),
        let w1 := fst (performAction id cooldown messageDuration w) in
        let w2 := run id cooldown messageDuration between w1 in
        clock w2 - clock w < cooldown ->
        Forall (fun op => ~ allowedReply id op) between ->
        snd (performAction id cooldown messageDuration w2) = Returned).
Proof.
  intros Hclaim.
  specialize (Hclaim "open_stash" 5000 2000 stash10000 [Elapse 11000]).
  cbv zeta in Hclaim.
  assert (snd (performAction "open_stash" 5000 2000
                 (run "open_stash" 5000 2000 [Elapse 11000]
                    (fst (performAction "open_stash" 5000 2000 stash10000))))
          = Returned) as Hsecond.
  { apply Hclaim.
    - vm_compute. reflexivity.
    - repeat constructor. cbn. tauto. }
  vm_compute in Hsecond. discriminate.
Qed.

(** The host allows the first call at 10500 and the second call, at
    12000, is denied locally; with no reply and the second call at 11000 it
    awaits the host again. *)
Lemma second_call_silent_after_allowed_reply_witness :
  let w2 := run "open_stash" 5000 2000 allowedMeanwhile
              (fst (performAction "open_stash" 5000 2000 stash10000)) in
  (clock w2 - clock stash10000 < 5000 /\
   Exists (allowedReply "open_stash") allowedMeanwhile /\
   snd (performAction "open_stash" 5000 2000 w2) = Returned) /\
  snd (performAction "open_stash" 5000 2000
         (run "open_stash" 5000 2000 [Elapse 11000]
            (fst (performAction "open_stash" 5000 2000 stash10000))))
  = Awaiting (JStr "checkRateLimit") (checkRateLimitData "open_stash" 5000).
Proof.
  assert (Hin : clock (run "open_stash" 5000 2000 allowedMeanwhile
                         (fst (performAction "open_stash" 5000 2000
                                 stash10000)))
                - clock stash10000 < 5000) by (vm_compute; reflexivity).
  assert (Hex : Exists (allowedReply "open_stash") allowedMeanwhile).
  { apply Exists_cons_tl, Exists_cons_hd. vm_compute. reflexivity. }
  split; [split; [exact Hin | split; [exact Hex|]] |].
  - exact (proj1 (proj1 (second_call_silent_after_allowed_reply
                           "open_stash" 5000 2000 stash10000
                           allowedMeanwhile) Hin Hex)).
  - apply (proj2 (second_call_silent_after_allowed_reply
                    "open_stash" 5000 2000 stash10000 [Elapse 11000])).
    + repeat constructor. cbn. tauto.
    + vm_compute. discriminate.
Defined.


(** An allowed reply processed at time 0 writes the store. *)
Lemma lastActionTime_written_only_on_allowed_reply_witness :
  lastActionTimes (step "open_stash" 5000 2000 stash0
                     (Responses (allow "open_stash"))) !! "open_stash"
  = Some 0.
Proof.
  refine (proj2 (proj2 (proj1 (proj2
            (lastActionTime_written_only_on_allowed_reply
               "open_stash" 5000 2000))
            stash0 (Responses (allow "open_stash")) "open_stash" _))).
  vm_compute. discriminate.
Defined.

(** Nine seconds after the allowed reply the call passes; the host
    call fails with status 500 and [actionFn] runs all the same. *)
Lemma passed_check_runs_actionFn_witness :
  coolingDown "open_stash" 5000 stash10000 = false /\
  snd (performAction_async "open_stash" 5000 2000
         (sendMessage (gameWindow errorResponse)) stash10000)
  = (fst (sendMessage (gameWindow errorResponse) (JStr "checkRateLimit")
            (Some (checkRateLimitData "open_stash" 5000)))
     ++ [EActionFn], Normal tt).
Proof.
  assert (Hpass : coolingDown "open_stash" 5000 stash10000 = false)
    by (vm_compute; reflexivity).
  split; [exact Hpass|].
  destruct (proj1 (proj2 (passed_check_runs_actionFn
                            "open_stash" 5000 2000 stash10000 Hpass))
                  (gameWindow errorResponse)) as (v & _ & Hrun).
  by rewrite Hrun.
Defined.

(** An allowed reply processed at time 3000. *)
Lemma allowed_reply_resets_witness :
  allow "open_stash" !! "open_stash" = Some true /\
  getLastActionTime "open_stash"
    (responseEffect "open_stash" 2000 (allow "open_stash") stash3000)
  = Num 3000.
Proof.
  assert (Hal : allow "open_stash" !! "open_stash" = Some true)
    by (vm_compute; reflexivity).
  split; [exact Hal|].
  exact (proj2 (proj2 (proj2 (proj2 (proj2
           (allowed_reply_resets "open_stash" 5000 2000 (allow "open_stash")
              stash3000 Hal)))))).
Defined.




(** Inside the provider the bridge itself is returned. *)
Lemma useNui_outside_provider_throws_witness :
  useNui (Some gameBridge) = Normal gameBridge /\
  Some gameBridge = Some gameBridge.
Proof.
  split; [reflexivity|].
  exact (proj2 (proj2 useNui_outside_provider_throws)
               (Some gameBridge) gameBridge eq_refl).
Defined.

(** ** More about the bridge *)

Section BridgeMore.

Implicit Types (w : Window) (event : JsValue) (data : option JsValue).

Lemma sendMessage_resource_throws w event data e :
  GetParentResourceName w = Some (Throw e) ->
  sendMessage w event data
  = ([EConsoleError (eventNameOf event) e], Normal JNull).
Proof.
  intros Hg. unfold sendMessage, sendMessage_try, resourceNameOf.
  rewrite Hg. reflexivity.
Qed.

Lemma sendMessage_fetches w event data :
  fetches (fst (sendMessage w event data)) =
  match resourceNameOf w with
  | Normal resourceName =>
      [requestFor resourceName (eventNameOf event) (dataOrDefault data)]
  | Throw _ => []
  end.
Proof.
  destruct (resourceNameOf w) as [resourceName|e] eqn:Hr.
  - unfold sendMessage. rewrite (sendMessage_try_request _ _ _ _ Hr).
    destruct (fetch w _) as [resp|e]; cbn; [|reflexivity].
    destruct (negb (resp_ok resp)); cbn; [reflexivity|].
    unfold readResponse, Response_json, Response_text.
    destruct (unusable resp) eqn:Hu; cbn.
    + rewrite Hu. reflexivity.
    + destruct (resp_body resp) as [b|] eqn:Hb; cbn.
      * destruct (body_json b); cbn; [reflexivity|].
        unfold unusable, read_body; cbn. rewrite Hb. reflexivity.
      * unfold unusable, read_body; cbn. rewrite Hb. reflexivity.
  - unfold sendMessage, sendMessage_try. rewrite Hr. reflexivity.
Qed.

(** X1. Each way a host call can fail leaves exactly one line on the
    console: a throwing [GetParentResourceName] is logged and no request
    is sent at all; a rejected [fetch] is logged with its error; a status
    outside 200..299 is logged with the status. *)
Theorem sendMessage_failure_effects w event data :
  let eventName := eventNameOf event in
  let body := dataOrDefault data in
  (forall e, GetParentResourceName w = Some (Throw e) ->
             sendMessage w event data
             = ([EConsoleError eventName e], Normal JNull)) /\
  (forall resourceName e,
      resourceNameOf w = Normal resourceName ->
      fetch w (requestFor resourceName eventName body) = Throw e ->
      sendMessage w event data
      = ([EFetch (requestFor resourceName eventName body);
          EConsoleError eventName e], Normal JNull)) /\
  (forall resourceName resp,
      resourceNameOf w = Normal resourceName ->
      fetch w (requestFor resourceName eventName body) = Normal resp ->
      ~ 200 <= resp_status resp <= 299 ->
      sendMessage w event data
      = ([EFetch (requestFor resourceName eventName body);
          EConsoleFailed eventName (resp_status resp)], Normal JNull)).
Proof.
  intros eventName body. split; [|split].
  - intros e. apply sendMessage_resource_throws.
  - intros resourceName e Hr Hf. unfold sendMessage.
    rewrite (sendMessage_try_request _ _ _ _ Hr). fold eventName body.
    rewrite Hf. reflexivity.
  - intros resourceName resp Hr Hf Hst. unfold sendMessage.
    rewrite (sendMessage_try_request _ _ _ _ Hr). fold eventName body.
    rewrite Hf. cbn. unfold resp_ok.
    rewrite bool_decide_eq_false_2 by done. reflexivity.
Qed.

(** X2. A call sends at most one request, and every request it sends is a
    POST with the JSON content type whose body is the payload, the empty
    object when the payload is omitted or [undefined]. *)
Theorem sendMessage_request_shape w event data req :
  req ∈ fetches (fst (sendMessage w event data)) ->
  req_method req = "POST" /\
  req_contentType req = "application/json; charset=UTF-8" /\
  req_body req = match data with
                 | None | Some JUndefined => JObj []
                 | Some d => d
                 end /\
  fetches (fst (sendMessage w event data)) = [req].
Proof.
  rewrite sendMessage_fetches.
  destruct (resourceNameOf w) as [resourceName|e].
  - intros ->%list_elem_of_singleton. done.
  - by intros ?%elem_of_nil.
Qed.

(** X3. A 2xx response whose body is JSON: the parsed value is returned, and
    the request is the only effect (nothing is logged). *)
Theorem sendMessage_json_body_returned w event data resourceName resp b v :
  resourceNameOf w = Normal resourceName ->
  fetch w (requestFor resourceName (eventNameOf event)
                      (dataOrDefault data)) = Normal resp ->
  200 <= resp_status resp <= 299 ->
  resp_bodyUsed resp = false ->
  resp_body resp = Some b -> body_json b = Some v ->
  sendMessage w event data
  = ([EFetch (requestFor resourceName (eventNameOf event)
                         (dataOrDefault data))], Normal v).
Proof.
  intros Hr Hf Hst Hused Hb Hj. unfold sendMessage.
  rewrite (sendMessage_try_request _ _ _ _ Hr), Hf. cbn.
  unfold resp_ok. rewrite bool_decide_eq_true_2 by done. cbn.
  unfold readResponse, Response_json, unusable. rewrite Hb, Hused, Hj.
  reflexivity.
Qed.

(** X4. A 2xx response with a null body (a 204, say): parsing the empty
    bytes fails, nothing was read, so the fallback [resp.text()] answers
    and the empty string is returned, with nothing logged. *)
Theorem sendMessage_null_body_gives_empty_text w event data resourceName resp :
  resourceNameOf w = Normal resourceName ->
  fetch w (requestFor resourceName (eventNameOf event)
                      (dataOrDefault data)) = Normal resp ->
  200 <= resp_status resp <= 299 ->
  resp_body resp = None ->
  sendMessage w event data
  = ([EFetch (requestFor resourceName (eventNameOf event)
                         (dataOrDefault data))], Normal (JStr "")).
Proof.
  intros Hr Hf Hst Hb. unfold sendMessage.
  rewrite (sendMessage_try_request _ _ _ _ Hr), Hf. cbn.
  unfold resp_ok. rewrite bool_decide_eq_true_2 by done. cbn.
  unfold readResponse, Response_json, Response_text, unusable.
  rewrite Hb. cbn. rewrite Hb. reflexivity.
Qed.

End BridgeMore.

(** ** The provider's keyboard, mount and teardown *)

Section ProviderMore.

Implicit Types (w : Window) (listeners : list (string * Handler)).

Lemma started_call_settles w event data :
  exists effects v,
    sendMessage w event data = (effects, Normal v) /\
    fetches effects =
    match resourceNameOf w with
    | Normal resourceName =>
        [requestFor resourceName (eventNameOf event) (dataOrDefault data)]
    | Throw _ => []
    end.
Proof.
  destruct (sendMessage_settles w event data) as [v Hv].
  pose proof (sendMessage_fetches w event data) as Hf.
  destruct (sendMessage w event data) as [effects c]. cbn in Hv, Hf.
  subst c. by exists effects, v.
Qed.

(** X5. Only Escape does anything. In a development build no key contacts
    the host: Escape calls [setVisible(false)]. In a production build no
    key changes the visibility locally: Escape starts one [hideFrame]
    host call with the empty payload, and its promise never rejects. *)
Theorem handleKeyDown_escape dev w key :
  let r := handleKeyDown dev w key in
  (key <> "Escape" -> r = mkRan [] []) /\
  (dev = true ->
   started r = [] /\ (key = "Escape" -> calls r = [SetVisible false])) /\
  (dev = false ->
   calls r = [] /\
   (key = "Escape" ->
    exists effects v,
      started r = [(effects, Normal v)] /\
      fetches effects =
      match resourceNameOf w with
      | Normal resourceName =>
          [requestFor resourceName "hideFrame" (JObj [])]
      | Throw _ => []
      end)).
Proof.
  intros r. subst r. unfold handleKeyDown, hideFrame.
  split; [|split].
  - intros Hk. by rewrite decide_False.
  - intros ->. destruct (decide (key = "Escape")); done.
  - intros ->. destruct (decide (key = "Escape")) as [Hk|Hk]; [|done].
    split; [done|]. intros _. cbn.
    destruct (started_call_settles w (JStr "hideFrame") None)
      as (effects & v & -> & Hf).
    by exists effects, v.
Qed.

(** X6. Mounting the provider marks the UI ready and starts one [uiReady]
    host call with the empty payload without awaiting it: the ready flag
    is set whatever becomes of the call, and the call's promise never
    rejects. *)
Theorem mountEffect_ready w :
  SetUiReady true ∈ calls (mountEffect w) /\
  exists effects v,
    started (mountEffect w) = [(effects, Normal v)] /\
    fetches effects =
    match resourceNameOf w with
    | Normal resourceName => [requestFor resourceName "uiReady" (JObj [])]
    | Throw _ => []
    end.
Proof.
  split.
  - cbn. apply list_elem_of_In. cbn. tauto.
  - cbn. destruct (started_call_settles w (JStr "uiReady") None)
      as (effects & v & -> & Hf).
    by exists effects, v.
Qed.

Lemma elem_of_addEventListener type h listeners l :
  l ∈ addEventListener type h listeners <-> l ∈ listeners \/ l = (type, h).
Proof.
  unfold addEventListener. destruct (decide ((type, h) ∈ listeners)).
  - split; [tauto|]. intros [?| ->]; done.
  - rewrite elem_of_app, list_elem_of_singleton. tauto.
Qed.

Lemma elem_of_removeEventListener type h listeners l :
  l ∈ removeEventListener type h listeners <->
  l <> (type, h) /\ l ∈ listeners.
Proof.
  unfold removeEventListener.
  apply (list_elem_of_filter (fun l => l <> (type, h))).
Qed.

Lemma removeEventListener_absent type h listeners :
  (type, h) ∉ listeners -> removeEventListener type h listeners = listeners.
Proof.
  unfold removeEventListener.
  induction listeners as [|l ls IH]; intros Hnot; [done|].
  apply not_elem_of_cons in Hnot as [Hne Hnot].
  rewrite filter_cons, decide_True by done. by rewrite IH.
Qed.

Lemma removeEventListener_added type h listeners :
  (type, h) ∉ listeners ->
  removeEventListener type h (addEventListener type h listeners) = listeners.
Proof.
  intros Hnot. unfold addEventListener. rewrite decide_False by done.
  unfold removeEventListener. rewrite filter_app.
  fold (removeEventListener type h listeners).
  rewrite removeEventListener_absent by done.
  rewrite filter_cons, decide_False by (intros H; by apply H).
  by rewrite filter_nil, app_nil_r.
Qed.

Lemma removeEventListener_comm type h type' h' listeners :
  removeEventListener type h (removeEventListener type' h' listeners)
  = removeEventListener type' h' (removeEventListener type h listeners).
Proof.
  unfold removeEventListener. rewrite !list_filter_filter.
  apply list_filter_iff. tauto.
Qed.

(** X7. While the provider is mounted its two listeners are registered;
    after its cleanups neither is, every other listener of [window] is
    where it was, and when the two were not registered before, the
    listener list is back to what it was. The order of the two cleanups
    makes no difference. *)
Theorem provider_listeners_round_trip w listeners :
  let message := ("message", HandleNuiMessage) in
  let keydown := ("keydown", HandleKeyDown) in
  let during :=
    listenersAfter (calls (mountEffect w) ++ calls keydownEffect) listeners in
  let after :=
    listenersAfter (calls mountCleanup ++ calls keydownCleanup) during in
  ((message ∈ during) /\ (keydown ∈ during)) /\
  ((message ∉ after) /\ (keydown ∉ after)) /\
  (forall l, l <> message -> l <> keydown -> (l ∈ after <-> l ∈ listeners)) /\
  ((message ∉ listeners) -> (keydown ∉ listeners) -> after = listeners) /\
  listenersAfter (calls keydownCleanup ++ calls mountCleanup) during = after.
Proof.
  intros message keydown during after.
  assert (Hd : during = addEventListener "keydown" HandleKeyDown
                          (addEventListener "message" HandleNuiMessage
                             listeners)) by reflexivity.
  assert (Ha : after = removeEventListener "keydown" HandleKeyDown
                         (removeEventListener "message" HandleNuiMessage
                            during)) by reflexivity.
  assert (Ha' : listenersAfter (calls keydownCleanup ++ calls mountCleanup)
                  during
                = removeEventListener "message" HandleNuiMessage
                    (removeEventListener "keydown" HandleKeyDown during))
    by reflexivity.
  clearbody during after. subst message keydown. cbv zeta.
  assert (Hduring : forall l, l ∈ during <->
                              l ∈ listeners \/ l = ("message", HandleNuiMessage)
                              \/ l = ("keydown", HandleKeyDown)).
  { intros l. rewrite Hd, !elem_of_addEventListener. tauto. }
  assert (Hafter : forall l, l ∈ after <->
                             l <> ("message", HandleNuiMessage) /\
                             l <> ("keydown", HandleKeyDown) /\ l ∈ during).
  { intros l. rewrite Ha, !elem_of_removeEventListener. tauto. }
  split; [|split; [|split; [|split]]].
  - rewrite !Hduring. tauto.
  - rewrite !Hafter. tauto.
  - intros l Hm Hk. rewrite Hafter, Hduring. tauto.
  - intros Hm Hk. rewrite Ha, Hd.
    rewrite removeEventListener_comm.
    rewrite removeEventListener_added.
    + by apply removeEventListener_added.
    + rewrite elem_of_addEventListener. intros [?|[=]]. done.
  - rewrite Ha', Ha. apply removeEventListener_comm.
Qed.

End ProviderMore.

(** ** More about the coordinator *)

Section CoordinatorMore.

Variables (id : string) (cooldown messageDuration : Z).

#[local] Abbreviation showMessage := (showMessage messageDuration).
#[local] Abbreviation responseEffect := (responseEffect id messageDuration).
#[local] Abbreviation performAction :=
  (performAction id cooldown messageDuration).
#[local] Abbreviation step := (step id cooldown messageDuration).
#[local] Abbreviation run := (run id cooldown messageDuration).
#[local] Abbreviation reachable := (reachable id cooldown messageDuration).
#[local] Abbreviation mount := (mount id messageDuration).

Lemma step_isRateLimited w op :
  isRateLimited (step w op) =
  match op with
  | Responses r =>
      match r !! id with
      | Some allowed => negb allowed
      | None => isRateLimited w
      end
  | _ => isRateLimited w
  end.
Proof.
  destruct op as [|r|t|]; cbn.
  - apply performAction_frame.
  - unfold RateLimit.responseEffect. destruct (r !! id) as [[|]|]; [| |done].
    + unfold clearMessageTimeout. cbn. by destruct (messageTimeoutRef w).
    + unfold RateLimit.showMessage, clearMessageTimeout. cbn.
      by destruct (messageTimeoutRef w).
  - done.
  - apply clearMessageTimeout_frame.
Qed.

(** X8. The flag [isRateLimited] is the negation of the last verdict the
    effect has read for the id, and false while it has read none: a local
    denial, the expiry of the message, a passing call and the cleanup
    leave it as it is. *)
Theorem isRateLimited_tracks_last_reply now store responses ops :
  isRateLimited (run ops (mount now store responses)) =
  match lastVerdict id (responses !! id) ops with
  | Some allowed => negb allowed
  | None => false
  end.
Proof.
  assert (Hgen : forall ops w seen,
             isRateLimited w
             = match seen with Some a => negb a | None => false end ->
             isRateLimited (run ops w)
             = match lastVerdict id seen ops with
               | Some a => negb a
               | None => false
               end).
  { clear ops. induction ops as [|op ops IH]; intros w seen Hw; [done|].
    cbn. apply IH. rewrite step_isRateLimited.
    destruct op as [|r|t|]; try done. by destruct (r !! id). }
  apply Hgen. unfold mount, RateLimit.mount.
  change (responseEffect responses ?w) with (step w (Responses responses)).
  rewrite step_isRateLimited. by destruct (responses !! id).
Qed.

Lemma idle_run ticks w :
  timers w = ∅ ->
  timers (run (Elapse <$> ticks) w) = ∅ /\
  rateLimitMessage (run (Elapse <$> ticks) w) = rateLimitMessage w.
Proof.
  revert w. induction ticks as [|t ticks IH]; intros w Hw; [done|].
  destruct (elapse_idle t w Hw) as [Ht Hm].
  destruct (IH _ Ht) as [IHt IHm]. rewrite <- Hm.
  split; [exact IHt | exact IHm].
Qed.


(** X10. The cleanup on unmount leaves none of the hook's timeouts pending:
    however much time passes afterwards, no timeout of the hook updates
    its state. *)
Theorem unmount_cancels_timeout w :
  reachable w ->
  timers (unmountCleanup w) = ∅ /\
  forall ticks,
    timers (run (Elapse <$> ticks) (unmountCleanup w)) = ∅ /\
    rateLimitMessage (run (Elapse <$> ticks) (unmountCleanup w))
    = rateLimitMessage w.
Proof.
  intros Hreach. apply timersOwned_reachable in Hreach.
  assert (Ht : timers (unmountCleanup w) = ∅)
    by (by apply clearMessageTimeout_timers).
  split; [done|]. intros ticks.
  destruct (idle_run ticks _ Ht) as [-> ->].
  split; [done|]. apply clearMessageTimeout_frame.
Qed.

(** X11. After the effect has processed an allowed reply, and until it
    processes the next one, a call is denied locally exactly while less
    than [cooldown] ms have passed since that reply: the call made
    [cooldown] ms after it passes the local check. *)
Theorem cooldown_window responses ops w :
  responses !! id = Some true ->
  Forall (fun op => ~ allowedReply id op) ops ->
  let w2 := run ops (responseEffect responses w) in
  snd (performAction w2) = Returned <-> clock w2 - clock w < cooldown.
Proof.
  intros Hal Hno w2.
  assert (Hlast : lastActionTimes w2 !! id = Some (clock w)).
  { subst w2. rewrite run_store by done.
    rewrite responseEffect_store, decide_True by done.
    apply lookup_insert_eq. }
  destruct (coolingDown id cooldown w2) eqn:Hcool.
  - rewrite performAction_denied by done. cbn.
    apply coolingDown_spec in Hcool as (last & Hl & Hlt).
    rewrite Hlast in Hl. injection Hl as <-. done.
  - rewrite performAction_passed by done. cbn. split; [done|].
    intros Hlt. assert (coolingDown id cooldown w2 = true); [|congruence].
    apply coolingDown_spec. by exists (clock w).
Qed.

Lemma messageBacked_showMessage w :
  timersOwned w ->
  messageBacked id messageDuration (showMessage (rateLimitedText id) w).
Proof.
  intros Hown m Hm.
  destruct (showMessage_frame messageDuration (rateLimitedText id) w)
    as (Hc & _ & _ & Hmsg & Href).
  rewrite Hmsg in Hm. injection Hm as <-. split; [done|].
  exists (nextTimer w), (clock w + timeoutDelay messageDuration).
  rewrite Href, Hc, showMessage_timers by done.
  split; [done|]. split; [done|].
  pose proof (timeoutDelay_nonneg messageDuration). lia.
Qed.

Lemma messageBacked_none w :
  rateLimitMessage w = None -> messageBacked id messageDuration w.
Proof. intros Hnone m Hm. congruence. Qed.

Lemma messageBacked_elapse t w :
  messageBacked id messageDuration w ->
  messageBacked id messageDuration (elapse t w).
Proof.
  intros Hb m Hm.
  assert (rateLimitMessage w = Some m) as Hw.
  { unfold elapse in Hm. cbn in Hm.
    by destruct (decide (_ = ∅)) in Hm. }
  destruct (Hb m Hw) as (-> & h & due & Href & Ht & Hdue).
  split; [done|]. exists h, due.
  destruct (decide (Z.max (clock w) t < due)) as [Hlt|Hge].
  - destruct (elapse_before h due t w Ht Hlt) as [-> _].
    split; [done|]. split; [done|]. cbn. lia.
  - destruct (elapse_after h due t w Ht) as [_ Hnone]; [lia|congruence].
Qed.

Lemma messageBacked_step w op :
  op <> Unmount ->
  timersOwned w -> messageBacked id messageDuration w ->
  messageBacked id messageDuration (step w op).
Proof.
  intros Hop Hown Hb. destruct op as [|r|t|]; cbn; [| | |done].
  - unfold RateLimit.performAction.
    destruct (coolingDown id cooldown w); cbn.
    + by apply messageBacked_showMessage.
    + apply messageBacked_none, clearMessageTimeout_frame.
  - unfold RateLimit.responseEffect. destruct (r !! id) as [[|]|]; [| |done].
    + apply messageBacked_none, clearMessageTimeout_frame.
    + by apply messageBacked_showMessage.
  - by apply messageBacked_elapse.
Qed.

Lemma messageBacked_run ops w :
  Forall (fun op => op <> Unmount) ops ->
  timersOwned w -> messageBacked id messageDuration w ->
  messageBacked id messageDuration (run ops w).
Proof.
  revert w. induction ops as [|op ops IH]; intros w Hops Hown Hb; [done|].
  inversion Hops as [|? ? Hop Hrest]; subst. cbn. apply IH; [done| |].
  - by apply timersOwned_step.
  - by apply messageBacked_step.
Qed.

(** X12. While the hook is mounted a message never sticks: whatever is
    on display is the rate-limit text of the id, the one pending timeout
    is the one [messageTimeoutRef] holds and it is due within the delay
    [setTimeout] takes for [messageDuration]; so once that much time has
    passed with nothing else happening, no message is displayed. That
    delay is at most [messageDuration] ms (0 for a negative one) as long
    as [messageDuration] is no less than -2^31. *)
Theorem displayed_message_has_timeout now store responses ops :
  Forall (fun op => op <> Unmount) ops ->
  let w := run ops (mount now store responses) in
  (forall m,
      rateLimitMessage w = Some m ->
      m = "Action [" +:+ id +:+ "] is rate limited. Please wait." /\
      exists h due,
        messageTimeoutRef w = Some h /\ timers w = {[ h := due ]} /\
        clock w <= due <= clock w + timeoutDelay messageDuration) /\
  rateLimitMessage (elapse (clock w + timeoutDelay messageDuration) w)
  = None /\
  (-2147483648 <= messageDuration ->
   (forall m,
       rateLimitMessage w = Some m ->
       m = "Action [" +:+ id +:+ "] is rate limited. Please wait." /\
       exists h due,
         messageTimeoutRef w = Some h /\ timers w = {[ h := due ]} /\
         clock w <= due <= clock w + Z.max 0 messageDuration) /\
   rateLimitMessage (elapse (clock w + Z.max 0 messageDuration) w) = None).
Proof.
  intros Hops w.
  assert (Hown0 : timersOwned (mkWorld now store false None None ∅ 1%positive)).
  { intros h due. cbn. by rewrite lookup_empty. }
  assert (Hb : messageBacked id messageDuration w).
  { subst w. apply messageBacked_run; [done| |].
    - by apply timersOwned_responseEffect.
    - change (mount now store responses)
        with (step (mkWorld now store false None None ∅ 1%positive)
                   (Responses responses)).
      apply messageBacked_step; [done|done|]. by apply messageBacked_none. }
  assert (Hgone : forall t, clock w + timeoutDelay messageDuration <= t ->
                            rateLimitMessage (elapse t w) = None).
  { intros t Ht. destruct (rateLimitMessage w) as [m|] eqn:Hm.
    - destruct (Hb m Hm) as (_ & h & due & _ & Htimers & Hdue).
      apply (elapse_after h due); [done|lia].
    - unfold elapse. cbn. rewrite Hm. by destruct (decide (_ = ∅)). }
  split; [exact Hb|]. split; [by apply Hgone|].
  intros Hmin. pose proof (timeoutDelay_le messageDuration Hmin) as Hle.
  split; [|apply Hgone; lia].
  intros m Hm. destruct (Hb m Hm) as (-> & h & due & Href & Htimers & Hdue).
  split; [done|]. exists h, due. split; [done|]. split; [done|]. lia.
Qed.

End CoordinatorMore.

(** ** The further properties at concrete runs *)

(** A throwing resource name, a rejected fetch and a 500. *)
Lemma sendMessage_failure_effects_witness :
  sendMessage throwingWindow (JStr "uiReady") None
  = ([EConsoleError "uiReady" (Error "no resource")], Normal JNull) /\
  sendMessage browserWindow (JStr "uiReady") None
  = ([EFetch (requestFor "inkwell-react-template" "uiReady" (JObj []));
      EConsoleError "uiReady" (TypeError "Failed to fetch")], Normal JNull) /\
  sendMessage (gameWindow errorResponse) (JStr "uiReady") None
  = ([EFetch (requestFor "my-resource" "uiReady" (JObj []));
      EConsoleFailed "uiReady" 500], Normal JNull).
Proof.
  split; [|split].
  - exact (proj1 (sendMessage_failure_effects throwingWindow
                    (JStr "uiReady") None) _ eq_refl).
  - exact (proj1 (proj2 (sendMessage_failure_effects browserWindow
                           (JStr "uiReady") None))
                 "inkwell-react-template" _ eq_refl eq_refl).
  - exact (proj2 (proj2 (sendMessage_failure_effects
                           (gameWindow errorResponse) (JStr "uiReady") None))
                 "my-resource" errorResponse eq_refl eq_refl
                 ltac:(cbn; lia)).
Defined.

(** The request of [sendMessage('checkRateLimit')] inside the game, with
    the payload left out and with the payload [undefined]. *)
Lemma sendMessage_request_shape_witness :
  requestFor "my-resource" "checkRateLimit" (JObj [])
  ∈ fetches (fst (sendMessage (gameWindow jsonResponse)
                    (JStr "checkRateLimit") None)) /\
  fetches (fst (sendMessage (gameWindow jsonResponse)
                  (JStr "checkRateLimit") None))
  = [requestFor "my-resource" "checkRateLimit" (JObj [])] /\
  fetches (fst (sendMessage (gameWindow jsonResponse)
                  (JStr "checkRateLimit") (Some JUndefined)))
  = [requestFor "my-resource" "checkRateLimit" (JObj [])].
Proof.
  assert (Hin : forall data,
             dataOrDefault data = JObj [] ->
             requestFor "my-resource" "checkRateLimit" (JObj [])
             ∈ fetches (fst (sendMessage (gameWindow jsonResponse)
                               (JStr "checkRateLimit") data))).
  { intros data Hd. rewrite sendMessage_fetches. cbn. rewrite Hd.
    by apply list_elem_of_singleton. }
  split; [exact (Hin None eq_refl)|]. split.
  - exact (proj2 (proj2 (proj2 (sendMessage_request_shape
                                  (gameWindow jsonResponse)
                                  (JStr "checkRateLimit") None _
                                  (Hin None eq_refl))))).
  - exact (proj2 (proj2 (proj2 (sendMessage_request_shape
                                  (gameWindow jsonResponse)
                                  (JStr "checkRateLimit") (Some JUndefined) _
                                  (Hin (Some JUndefined) eq_refl))))).
Defined.

(** A 200 with the JSON body [{}]. *)
Lemma sendMessage_json_body_returned_witness :
  200 <= resp_status jsonResponse <= 299 /\
  sendMessage (gameWindow jsonResponse) (JStr "uiReady") None
  = ([EFetch (requestFor "my-resource" "uiReady" (JObj []))],
     Normal (JObj [])).
Proof.
  assert (Hst : 200 <= resp_status jsonResponse <= 299) by (cbn; lia).
  split; [exact Hst|].
  exact (sendMessage_json_body_returned (gameWindow jsonResponse)
           (JStr "uiReady") None "my-resource" jsonResponse
           (mkBody "{}" (Some (JObj []))) (JObj [])
           eq_refl eq_refl Hst eq_refl eq_refl eq_refl).
Defined.

(** A 204 with no body. *)
Lemma sendMessage_null_body_gives_empty_text_witness :
  200 <= resp_status emptyResponse <= 299 /\
  sendMessage (gameWindow emptyResponse) (JStr "hideFrame") None
  = ([EFetch (requestFor "my-resource" "hideFrame" (JObj []))],
     Normal (JStr "")).
Proof.
  assert (Hst : 200 <= resp_status emptyResponse <= 299) by (cbn; lia).
  split; [exact Hst|].
  exact (sendMessage_null_body_gives_empty_text (gameWindow emptyResponse)
           (JStr "hideFrame") None "my-resource" emptyResponse
           eq_refl eq_refl Hst eq_refl).
Defined.

(** The key [a] in production, and Escape in development. *)
Lemma handleKeyDown_escape_witness :
  handleKeyDown false (gameWindow jsonResponse) "a" = mkRan [] [] /\
  calls (handleKeyDown true (gameWindow jsonResponse) "Escape")
  = [SetVisible false].
Proof.
  split.
  - exact (proj1 (handleKeyDown_escape false (gameWindow jsonResponse) "a")
                 ltac:(discriminate)).
  - exact (proj2 (proj1 (proj2 (handleKeyDown_escape true
                                  (gameWindow jsonResponse) "Escape"))
                        eq_refl) eq_refl).
Defined.

(** Mounting and unmounting on a window that has a listener of its own. *)
Lemma provider_listeners_round_trip_witness :
  listenersAfter (calls mountCleanup ++ calls keydownCleanup)
    (listenersAfter (calls (mountEffect browserWindow) ++ calls keydownEffect)
       [("keydown", HandleNuiMessage)])
  = [("keydown", HandleNuiMessage)].
Proof.
  refine (proj1 (proj2 (proj2 (proj2 (provider_listeners_round_trip
                   browserWindow [("keydown", HandleNuiMessage)])))) _ _).
  - intros [[=]|H]%elem_of_cons. by apply elem_of_nil in H.
  - intros [[=]|H]%elem_of_cons. by apply elem_of_nil in H.
Defined.


(** Unmounting while a denial is on display. *)
Lemma unmount_cancels_timeout_witness :
  timers (unmountCleanup (run "open_stash" 5000 2000 deniedAt1000 stash0))
  = ∅.
Proof.
  exact (proj1 (unmount_cancels_timeout "open_stash" 5000 2000
                  (run "open_stash" 5000 2000 deniedAt1000 stash0)
                  (reachable_run _ _ _ _ _ (stash0_reachable 5000)))).
Defined.

(** Allowed at time 0 with a cooldown of 5000: denied at 4999, passing at
    5000. *)
Lemma cooldown_window_witness :
  allow "open_stash" !! "open_stash" = Some true /\
  snd (performAction "open_stash" 5000 2000
         (run "open_stash" 5000 2000 [Elapse 4999]
            (responseEffect "open_stash" 2000 (allow "open_stash") stash0)))
  = Returned /\
  snd (performAction "open_stash" 5000 2000
         (run "open_stash" 5000 2000 [Elapse 5000]
            (responseEffect "open_stash" 2000 (allow "open_stash") stash0)))
  <> Returned.
Proof.
  assert (Hal : allow "open_stash" !! "open_stash" = Some true)
    by (vm_compute; reflexivity).
  assert (Hno : forall t, Forall (fun op => ~ allowedReply "open_stash" op)
                            [Elapse t]).
  { intros t. repeat constructor. cbn. tauto. }
  split; [exact Hal|]. split.
  - apply (proj2 (cooldown_window "open_stash" 5000 2000 (allow "open_stash")
                    [Elapse 4999] stash0 Hal (Hno 4999))).
    vm_compute. reflexivity.
  - intros Hret.
    apply (proj1 (cooldown_window "open_stash" 5000 2000 (allow "open_stash")
                    [Elapse 5000] stash0 Hal (Hno 5000))) in Hret.
    vm_compute in Hret. discriminate.
Defined.

(** A denial shown at time 1000 is gone by time 3000. *)
Lemma displayed_message_has_timeout_witness :
  Forall (fun op => op <> Unmount) deniedAt1000 /\
  rateLimitMessage
    (elapse 3000 (run "open_stash" 5000 2000 deniedAt1000 stash0))
  = None.
Proof.
  assert (Hops : Forall (fun op => op <> Unmount) deniedAt1000).
  { repeat constructor; discriminate. }
  split; [exact Hops|].
  exact (proj1 (proj2 (displayed_message_has_timeout "open_stash" 5000 2000
                         0 ∅ ∅ deniedAt1000 Hops))).
Defined.
